(** * PCF8575 I/O expander driver (devices/pcf8575/pcf8575.go)

    A shallow embedding of the Go driver and the proofs of its
    specification.  The driver keeps two latch bytes and talks to the chip
    through one primitive, [Tx], of the I2C bus it was given.

    Conventions of the embedding:
    - a Go [byte] is a [Z] in [0, 256); conversions and shifts that wrap
      in Go are written out with [mod 256];
    - a Go [int] index is a [Z];
    - a Go [error] is the record [error], [None] is the nil error;
    - a method with a pointer receiver [d *Dev] is a computation in the
      state monad [M Dev]: it reads and updates the fields of [d] and
      returns the Go results. *)

From Stdlib Require Import ZArith List String Bool Lia DecimalString.
Import ListNotations.
Open Scope Z_scope.

(** ** Go built-ins used by the driver *)

(** The [error] interface: a value with an [Error() string] method. *)
Record error : Type := mkError { Error : string }.

Module errors.
(** [errors.New(text)] *)
Definition New (text : string) : error := mkError text.
End errors.

Module fmt.
(** The verb [%d] applied to an [int]: decimal, with a minus sign for
    negative numbers. *)
Definition d (i : Z) : string := NilEmpty.string_of_int (Z.to_int i).

(** [fmt.Sprintf(prefix ++ "%d" ++ suffix, i)] *)
Definition Sprintf_d (prefix suffix : string) (i : Z) : string :=
  (prefix ++ d i ++ suffix)%string.
End fmt.

(** ** A state monad for methods with a pointer receiver *)

Definition M (S A : Type) : Type := S -> A * S.

Definition ret {S A} (a : A) : M S A := fun s => (a, s).

Definition bind {S A B} (m : M S A) (k : A -> M S B) : M S B :=
  fun s => let (a, s') := m s in k a s'.

Definition gets {S A} (f : S -> A) : M S A := fun s => (f s, s).

Definition modify {S} (f : S -> S) : M S unit := fun s => (tt, f s).

Declare Scope go_scope.
Delimit Scope go_scope with go.
Notation "x <- m ;; k" := (bind m (fun x => k))
  (at level 100, m at next level, right associativity) : go_scope.
Notation "m ;;; k" := (bind m (fun _ => k))
  (at level 100, right associativity) : go_scope.
Open Scope go_scope.

(** ** The bus abstraction (package conn/i2c) *)

Module i2c.

(** [fill r data]: the slice [r] after a callee has stored [data] in it,
    from its first byte on and as far as both reach.  A callee can
    overwrite the bytes of the caller's slice but cannot change its
    length. *)
Fixpoint fill (r data : list Z) : list Z :=
  match r, data with
  | _ :: r', y :: data' => y :: fill r' data'
  | _, _ => r
  end.

(** Modelled from the spec: the interface [i2c.Bus] and the type
    [i2c.Dev] live in package conn/i2c, outside the driver's file.  The
    spec describes them as "a transaction primitive
    [Tx(writeBytes, readBuffer) -> Error] bound to a fixed device
    address".

    [Tx b addr w r] is what a bus in state [b] does when asked to send
    [w] to the device at [addr] and to read into the buffer [r]: the bus
    afterwards, the bytes it stores in the buffer and the error. *)
Class Bus (B : Type) : Type := {
  Tx : B -> Z -> list Z -> list Z -> B * list Z * option error
}.

(** The call [i.Tx(addr, w, r)] as the caller sees it: the bus
    afterwards, the buffer [r] afterwards and the error. *)
Definition Bus_Tx {B} `{Bus B} (b : B) (addr : Z) (w r : list Z)
  : B * list Z * option error :=
  let '(b', data, err) := Tx b addr w r in (b', fill r data, err).

(** Modelled from the spec: [i2c.Dev{Bus: i, Addr: addr}], declared in
    package conn/i2c, is the primitive "bound to a fixed device address".
    It is the [conn.Conn] the driver holds. *)
Record Dev (B : Type) : Type := mkDev { bus : B; Addr : Z }.
Arguments mkDev {B} _ _.
Arguments bus {B} _.
Arguments Addr {B} _.

(** Modelled from the spec: the method [Tx(w, r)] of [i2c.Dev], declared
    in package conn/i2c.  The connection hands the transaction to its bus
    with its own address. *)
Definition Dev_Tx {B} `{Bus B} (d : Dev B) (w r : list Z)
  : Dev B * list Z * option error :=
  let '(b', r', err) := Bus_Tx (bus d) (Addr d) w r in
  (mkDev b' (Addr d), r', err).

End i2c.

(** ** The driver (package pcf8575) *)

Module pcf8575.

(** [func getMask(index int) byte { return 1 << byte(index) }]
    [byte(index)] keeps the low eight bits of [index]; the shift is done
    in type [byte], so a count of eight or more gives zero. *)
Definition getMask (index : Z) : Z :=
  Z.shiftl 1 (index mod 256) mod 256.

(** [^x] on a [byte] *)
Definition bnot (x : Z) : Z := Z.lxor x 255.

Definition setBit (value index : Z) (state : bool) : Z :=
  if state then Z.lor value (getMask index)
  else Z.land value (bnot (getMask index)).

Definition getBit (value index : Z) : bool :=
  Z.land value (getMask index) >? 0.

(** [type Dev struct { c conn.Conn; lowPins byte; highPins byte }] *)
Record Dev (B : Type) : Type := mkDev {
  c : i2c.Dev B;
  lowPins : Z;
  highPins : Z
}.
Arguments mkDev {B} _ _ _.
Arguments c {B} _.
Arguments lowPins {B} _.
Arguments highPins {B} _.

Definition range_error (fn : string) (index : Z) : error :=
  errors.New
    (fmt.Sprintf_d ("PCF8575." ++ fn ++ ": Pin index out of range (") ")"
                   index).

Section Methods.
Context {B : Type} `{i2c.Bus B}.

(** [d.lowPins = v] and [d.highPins = v] *)
Definition set_lowPins (v : Z) : M (Dev B) unit :=
  modify (fun d => mkDev (c d) v (highPins d)).
Definition set_highPins (v : Z) : M (Dev B) unit :=
  modify (fun d => mkDev (c d) (lowPins d) v).

(** [d.c.Tx(w, r)]: the connection inside the handle makes the
    transaction; the buffer afterwards and the error come back. *)
Definition c_Tx (w r : list Z) : M (Dev B) (list Z * option error) :=
  fun d =>
    let '(c', r', err) := i2c.Dev_Tx (c d) w r in
    ((r', err), mkDev c' (lowPins d) (highPins d)).

Definition updateState : M (Dev B) (option error) :=
  lo <- gets lowPins ;;
  hi <- gets highPins ;;
  res <- c_Tx [lo; hi] [] ;;
  ret (snd res).

Definition readState : M (Dev B) (list Z * option error) :=
  let s := [0; 0] in
  res <- c_Tx [] s ;;
  ret res.

Definition WriteOutput (index : Z) (state : bool)
  : M (Dev B) (option error) :=
  if (0 <=? index) && (index <? 8) then
    lo <- gets lowPins ;;
    set_lowPins (setBit lo index state) ;;;
    updateState
  else if (8 <=? index) && (index <? 16) then
    hi <- gets highPins ;;
    set_highPins (setBit hi (index - 8) state) ;;;
    updateState
  else
    ret (Some (range_error "WriteOutput" index)).

Definition ReadOutput (index : Z) : M (Dev B) (bool * option error) :=
  if (0 <=? index) && (index <? 8) then
    lo <- gets lowPins ;;
    ret (getBit lo index, None)
  else if (8 <=? index) && (index <? 16) then
    hi <- gets highPins ;;
    ret (getBit hi (index - 8), None)
  else
    ret (false, Some (range_error "ReadOutput" index)).

(** [s[0]] and [s[1]]: the buffer has two bytes before the transaction
    and two bytes after it, so the default of [nth] is never used
    (lemma [readState_length]). *)
Definition ReadInput (index : Z) : M (Dev B) (bool * option error) :=
  res <- readState ;;
  let '(s, err) := res in
  match err with
  | Some e => ret (false, Some e)
  | None =>
      if (0 <=? index) && (index <? 8) then
        ret (getBit (nth 0 s 0) index, None)
      else if (8 <=? index) && (index <? 16) then
        ret (getBit (nth 1 s 0) (index - 8), None)
      else
        ret (false, Some (range_error "ReadInput" index))
  end.

(** [New(i, addr)] builds the handle with both latches at [0xff] and
    writes them to the chip.  The caller keeps its reference to the bus
    [i], so [New] is a computation on the bus: the bus after the
    transaction is the final state, also when no handle comes back.
    On success the handle refers to that same bus. *)
Definition New (addr : Z) : M B (option (Dev B) * option error) :=
  fun i =>
    let d := mkDev (i2c.mkDev i addr) 255 255 in
    let (err, d') := updateState d in
    match err with
    | Some e => ((None, Some e), i2c.bus (c d'))
    | None => ((Some d', None), i2c.bus (c d'))
    end.

(** [func (d *Dev) Halt() error { return nil }] *)
Definition Halt : M (Dev B) (option error) := ret None.

End Methods.

End pcf8575.

(** ** Observing the bus

    Two buses in the manner of a test double.  [Record_] wraps any bus and
    keeps the list of the transactions made through it, oldest first;
    [Playback] answers from a script.  The claims about "how many
    transactions were issued" are stated on a recorded bus. *)

Module i2ctest.

(** One transaction as seen on the bus: the address, the bytes sent, the
    length of the read buffer, its contents afterwards and the error. *)
Record IO : Type := mkIO {
  io_addr : Z;
  io_w : list Z;
  io_rlen : nat;
  io_r : list Z;
  io_err : option error
}.

Record Record_ (B : Type) : Type := mkRecord { inner : B; Ops : list IO }.
Arguments mkRecord {B} _ _.
Arguments inner {B} _.
Arguments Ops {B} _.

Definition Record_Tx {B} `{i2c.Bus B} (t : Record_ B) (addr : Z)
  (w r : list Z) : Record_ B * list Z * option error :=
  let '(b', r', err) := i2c.Bus_Tx (inner t) addr w r in
  (mkRecord b' (Ops t ++ [mkIO addr w (List.length r) r' err]), r', err).

#[export] Instance Record_Bus {B} `{i2c.Bus B} : i2c.Bus (Record_ B) :=
  {| i2c.Tx := Record_Tx |}.

(** A scripted bus: each transaction consumes one answer, the bytes to
    put in the read buffer and the error to return.  When the script is
    over every transaction succeeds and stores nothing. *)
Definition Playback : Type := list (list Z * option error).

Definition Playback_Tx (p : Playback) (addr : Z) (w r : list Z)
  : Playback * list Z * option error :=
  match p with
  | [] => ([], [], None)
  | (data, err) :: p' => (p', data, err)
  end.

#[export] Instance Playback_Bus : i2c.Bus Playback :=
  {| i2c.Tx := Playback_Tx |}.

(** A write transaction sends bytes and reads none. *)
Definition is_write (o : IO) : bool :=
  match io_w o, io_rlen o with
  | _ :: _, O => true
  | _, _ => false
  end.

Definition succeeded (o : IO) : bool :=
  match io_err o with None => true | Some _ => false end.

(** The most recent write transaction of a log (oldest first). *)
Definition last_write (ops : list IO) : option IO :=
  find is_write (rev ops).

(** The payload of the most recent write transaction that succeeded. *)
Definition last_written (ops : list IO) : option (list Z) :=
  option_map io_w (find (fun o => is_write o && succeeded o) (rev ops)).

End i2ctest.

Import pcf8575 i2ctest.

(** ** Vocabulary of the statements *)

Definition is_byte (x : Z) : Prop := 0 <= x < 256.

Section Vocabulary.
Context {B : Type} `{i2c.Bus B}.
Implicit Types d : Dev B.

(** The transaction the connection of [d] makes for [w] and [r]. *)
Definition conn_Tx d (w r : list Z) : B * list Z * option error :=
  i2c.Bus_Tx (i2c.bus (c d)) (i2c.Addr (c d)) w r.

(** [d] with its bus replaced and everything else kept. *)
Definition with_bus d (b : B) : Dev B :=
  mkDev (i2c.mkDev b (i2c.Addr (c d))) (lowPins d) (highPins d).

Definition latches_kept d d' : Prop :=
  lowPins d' = lowPins d /\ highPins d' = highPins d.

(** Bit [j] of the latch pair, for a pin [j] of 0..15. *)
Definition latch_bit d (j : Z) : bool :=
  if j <? 8 then Z.testbit (lowPins d) j else Z.testbit (highPins d) (j - 8).

(** The handle after the assignment [WriteOutput] makes for a valid
    index, before any transaction. *)
Definition assigned d (index : Z) (state : bool) : Dev B :=
  if index <? 8
  then mkDev (c d) (setBit (lowPins d) index state) (highPins d)
  else mkDev (c d) (lowPins d) (setBit (highPins d) (index - 8) state).

(** What [ReadInput] returns once the transaction has answered [s] and
    [err]. *)
Definition input_result (index : Z) (s : list Z) (err : option error)
  : bool * option error :=
  match err with
  | Some e => (false, Some e)
  | None =>
      if (0 <=? index) && (index <? 8) then (getBit (nth 0 s 0) index, None)
      else if (8 <=? index) && (index <? 16)
           then (getBit (nth 1 s 0) (index - 8), None)
           else (false, Some (range_error "ReadInput" index))
  end.

End Vocabulary.

Section RecordedVocabulary.
Context {B : Type} `{i2c.Bus B}.
Implicit Types d : Dev (Record_ B).

(** The transactions made so far on the bus of the handle. *)
Definition log d : list IO := Ops (i2c.bus (c d)).

(** The write transaction of a latch pair, and the read transaction of
    the two port bytes. *)
Definition write_op (addr lo hi : Z) (err : option error) : IO :=
  mkIO addr [lo; hi] 0 [] err.
Definition read_op (addr : Z) (s : list Z) (err : option error) : IO :=
  mkIO addr [] 2 s err.

(** Invariant I1 of the specification. *)
Definition I1 d : Prop :=
  last_written (log d) = Some [lowPins d; highPins d].

(** The calls a client can make on a handle, and the handle after one. *)
Inductive call : Type :=
| CallWriteOutput (index : Z) (state : bool)
| CallReadOutput (index : Z)
| CallReadInput (index : Z).

Definition after (k : call) d : Dev (Record_ B) :=
  match k with
  | CallWriteOutput index state => snd (WriteOutput index state d)
  | CallReadOutput index => snd (ReadOutput index d)
  | CallReadInput index => snd (ReadInput index d)
  end.

(** The handles a client can hold: made by a successful [New] on the bus
    [b0], then used through any sequence of calls. *)
Inductive reachable (b0 : Record_ B) (addr : Z) : Dev (Record_ B) -> Prop :=
| reach_New d b' :
    New addr b0 = ((Some d, None), b') -> reachable b0 addr d
| reach_call d k :
    reachable b0 addr d -> reachable b0 addr (after k d).

(** Range enforcement as the specification words it (P1): an index
    outside 0..15 makes each of the three calls return its range error,
    record no transaction and keep the latches. *)
Definition range_enforced d (index : Z) : Prop :=
  (forall state,
      fst (WriteOutput index state d)
        = Some (range_error "WriteOutput" index) /\
      log (snd (WriteOutput index state d)) = log d /\
      latches_kept d (snd (WriteOutput index state d))) /\
  (snd (fst (ReadOutput index d)) = Some (range_error "ReadOutput" index) /\
   log (snd (ReadOutput index d)) = log d /\
   latches_kept d (snd (ReadOutput index d))) /\
  (snd (fst (ReadInput index d)) = Some (range_error "ReadInput" index) /\
   log (snd (ReadInput index d)) = log d /\
   latches_kept d (snd (ReadInput index d))).

End RecordedVocabulary.

(** ** Vocabulary for sequences of calls *)

Definition is_byteb (x : Z) : bool := (0 <=? x) && (x <? 256).

(** The latch pair of a handle. *)
Definition latches {B} (d : Dev B) : Z * Z := (lowPins d, highPins d).

(** Sixteen pins as one word: the low port in the low byte. *)
Definition word16 (lo hi : Z) : Z := lo + 256 * hi.

(** The handle after a sequence of calls, first call first. *)
Definition run {B} `{i2c.Bus B} (ks : list call) (d : Dev (Record_ B))
  : Dev (Record_ B) :=
  fold_left (fun d' k => after k d') ks d.

(** The calls that reach the bus: a [WriteOutput] with an index of 0..15
    and every [ReadInput]. *)
Definition transacts (k : call) : bool :=
  match k with
  | CallWriteOutput index _ => (0 <=? index) && (index <? 16)
  | CallReadOutput _ => false
  | CallReadInput _ => true
  end.

(** The state last commanded for pin [i] by the [WriteOutput] calls of a
    sequence, [init] when there is none. *)
Definition commanded (ks : list call) (i : Z) (init : bool) : bool :=
  fold_left
    (fun b k =>
       match k with
       | CallWriteOutput j s => if j =? i then s else b
       | _ => b
       end)
    ks init.

(** The two transactions of the wire protocol at address [addr]: a write
    of two bytes that reads nothing, or a read of two bytes that sends
    nothing. *)
Definition driver_op (addr : Z) (o : IO) : bool :=
  (io_addr o =? addr) &&
  match io_w o, io_rlen o with
  | [lo; hi], O =>
      is_byteb lo && is_byteb hi &&
      match io_r o with [] => true | _ :: _ => false end
  | [], S (S O) => (List.length (io_r o) =? 2)%nat
  | _, _ => false
  end.

(** ** Concrete buses and handles *)

Definition no_ack : error := errors.New "i2c: no ack".

(** A recorded scripted bus with an empty log. *)
Definition recording (p : Playback) : Record_ Playback := mkRecord p [].

(** A handle at address [0x20] on such a bus, with the given latches. *)
Definition handle (p : Playback) (lo hi : Z) : Dev (Record_ Playback) :=
  mkDev (i2c.mkDev (recording p) 32) lo hi.

(** * Properties *)

(** ** The code on small inputs *)

Example getMask_values :
  map getMask [0; 1; 2; 7; 8; 263; -1] = [1; 2; 4; 128; 0; 128; 0].
Proof. reflexivity. Qed.

Example setBit_values :
  setBit 255 2 false = 251 /\ setBit 251 2 true = 255 /\
  setBit 0 7 true = 128 /\ setBit 128 7 false = 0.
Proof. repeat split. Qed.

Example getBit_values :
  map (getBit 129) [0; 1; 6; 7] = [true; false; false; true].
Proof. reflexivity. Qed.

Example range_error_text :
  Error (range_error "ReadInput" (-3))
  = "PCF8575.ReadInput: Pin index out of range (-3)"%string /\
  Error (range_error "WriteOutput" 16)
  = "PCF8575.WriteOutput: Pin index out of range (16)"%string.
Proof. split; reflexivity. Qed.

(** Two reads in a row on a scripted bus: each one takes the next
    answer. *)
Example ReadInput_twice :
  let d := handle [([1; 128], None); ([0; 0], None)] 255 255 in
  fst (ReadInput 0 d) = (true, None) /\
  fst (ReadInput 0 (snd (ReadInput 0 d))) = (false, None) /\
  List.length (log (snd (ReadInput 0 (snd (ReadInput 0 d))))) = 2%nat.
Proof. repeat split. Qed.

(** ** Bytes and bits *)

Lemma is_byte_high_bits x :
  is_byte x <-> (forall k, 8 <= k -> Z.testbit x k = false).
Proof.
  unfold is_byte; split.
  - intros Hx k Hk.
    rewrite <- (Z.mod_small x (2 ^ 8)) by (change (2 ^ 8) with 256; lia).
    apply Z.mod_pow2_bits_high; lia.
  - intros Hhi.
    assert (E : x = x mod 2 ^ 8).
    { apply Z.bits_inj'; intros n Hn.
      destruct (Z_lt_le_dec n 8) as [Hlt | Hge].
      - rewrite Z.mod_pow2_bits_low by lia; reflexivity.
      - rewrite Z.mod_pow2_bits_high by lia. apply Hhi; lia. }
    rewrite E. change (2 ^ 8) with 256.
    apply Z.mod_pos_bound; lia.
Qed.

Lemma getMask_pin i : 0 <= i < 8 -> getMask i = 2 ^ i.
Proof.
  intros Hi. unfold getMask.
  rewrite (Z.mod_small i 256) by lia.
  rewrite Z.shiftl_1_l.
  apply Z.mod_small. split; [apply Z.pow_nonneg; lia|].
  change 256 with (2 ^ 8). apply Z.pow_lt_mono_r; lia.
Qed.

Lemma getMask_byte i : is_byte (getMask i).
Proof.
  unfold is_byte, getMask. apply Z.mod_pos_bound; lia.
Qed.

Lemma land_pow2 v i :
  0 <= i -> Z.land v (2 ^ i) = if Z.testbit v i then 2 ^ i else 0.
Proof.
  intros Hi. apply Z.bits_inj'; intros n Hn.
  rewrite Z.land_spec, Z.pow2_bits_eqb by lia.
  destruct (Z.eqb_spec i n) as [->|Hne].
  - destruct (Z.testbit v n); simpl.
    + rewrite Z.pow2_bits_eqb, Z.eqb_refl by lia; reflexivity.
    + rewrite Z.bits_0; reflexivity.
  - rewrite andb_false_r.
    destruct (Z.testbit v i).
    + rewrite Z.pow2_bits_eqb by lia.
      symmetry; apply Z.eqb_neq; exact Hne.
    + rewrite Z.bits_0; reflexivity.
Qed.

(** On a pin of the port [getBit] is the bit of the byte. *)
Lemma getBit_testbit v i : 0 <= i < 8 -> getBit v i = Z.testbit v i.
Proof.
  intros Hi. unfold getBit.
  rewrite getMask_pin, land_pow2 by lia.
  assert (0 < 2 ^ i) by (apply Z.pow_pos_nonneg; lia).
  destruct (Z.testbit v i).
  - apply Z.gtb_lt; assumption.
  - reflexivity.
Qed.

Lemma testbit_255 k : 0 <= k < 8 -> Z.testbit 255 k = true.
Proof.
  intros Hk. change 255 with (Z.ones 8). apply Z.ones_spec_low; lia.
Qed.

(** [setBit] sets the addressed bit and keeps the seven others. *)
Lemma setBit_testbit v i s k :
  0 <= i < 8 -> 0 <= k < 8 ->
  Z.testbit (setBit v i s) k = if k =? i then s else Z.testbit v k.
Proof.
  intros Hi Hk. unfold setBit, bnot.
  rewrite getMask_pin by lia.
  destruct s.
  - rewrite Z.lor_spec, Z.pow2_bits_eqb by lia.
    rewrite (Z.eqb_sym i k).
    destruct (k =? i); [apply orb_true_r | apply orb_false_r].
  - rewrite Z.land_spec, Z.lxor_spec, Z.pow2_bits_eqb, testbit_255 by lia.
    rewrite (Z.eqb_sym i k).
    destruct (k =? i); simpl; [apply andb_false_r | apply andb_true_r].
Qed.

Lemma getBit_setBit v i s : 0 <= i < 8 -> getBit (setBit v i s) i = s.
Proof.
  intros Hi.
  rewrite getBit_testbit, setBit_testbit, Z.eqb_refl by lia. reflexivity.
Qed.

Lemma getBit_setBit_other v i s k :
  0 <= i < 8 -> 0 <= k < 8 -> k <> i ->
  getBit (setBit v i s) k = getBit v k.
Proof.
  intros Hi Hk Hne.
  rewrite !getBit_testbit, setBit_testbit by lia.
  destruct (Z.eqb_spec k i); [contradiction | reflexivity].
Qed.

(** A byte stays a byte, whatever the index. *)
Lemma setBit_byte v i s : is_byte v -> is_byte (setBit v i s).
Proof.
  intros Hv. apply is_byte_high_bits; intros k Hk.
  pose proof (proj1 (is_byte_high_bits v) Hv k Hk) as Hvk.
  pose proof (proj1 (is_byte_high_bits _) (getMask_byte i) k Hk) as Hmk.
  unfold setBit; destruct s.
  - rewrite Z.lor_spec, Hvk, Hmk; reflexivity.
  - rewrite Z.land_spec, Hvk; reflexivity.
Qed.

(** ** Slices handed to the bus *)

Lemma fill_length r : forall data,
  List.length (i2c.fill r data) = List.length r.
Proof.
  induction r as [|x r IH]; intros [|y data]; simpl; auto.
Qed.

Lemma fill_same_length r : forall data,
  List.length data = List.length r -> i2c.fill r data = data.
Proof.
  induction r as [|x r IH]; intros [|y data] E; simpl in *;
    try discriminate; try reflexivity.
  rewrite IH by congruence. reflexivity.
Qed.

Lemma fill_fill r data : i2c.fill r (i2c.fill r data) = i2c.fill r data.
Proof.
  apply fill_same_length, fill_length.
Qed.

Lemma Bus_Tx_length {B} `{i2c.Bus B} (b : B) addr w r :
  List.length (snd (fst (i2c.Bus_Tx b addr w r))) = List.length r.
Proof.
  unfold i2c.Bus_Tx.
  destruct (i2c.Tx b addr w r) as [[b' data] err]. apply fill_length.
Qed.

(** ** What one call does, on any bus *)

Section AnyBus.
Context {B : Type} `{i2c.Bus B}.
Implicit Types d : Dev B.

Lemma c_Tx_eq d w r :
  c_Tx w r d =
  ((snd (fst (conn_Tx d w r)), snd (conn_Tx d w r)),
   with_bus d (fst (fst (conn_Tx d w r)))).
Proof.
  unfold c_Tx, i2c.Dev_Tx, conn_Tx, with_bus.
  destruct (i2c.Bus_Tx _ _ w r) as [[b' r'] err]; reflexivity.
Qed.

Lemma updateState_eq d :
  updateState d =
  (snd (conn_Tx d [lowPins d; highPins d] []),
   with_bus d (fst (fst (conn_Tx d [lowPins d; highPins d] [])))).
Proof.
  unfold updateState, bind, gets, ret. rewrite c_Tx_eq. reflexivity.
Qed.

Lemma readState_eq d :
  readState d =
  ((snd (fst (conn_Tx d [] [0; 0])), snd (conn_Tx d [] [0; 0])),
   with_bus d (fst (fst (conn_Tx d [] [0; 0])))).
Proof.
  unfold readState, bind, ret. rewrite c_Tx_eq. reflexivity.
Qed.

(** The buffer [readState] returns has two bytes: [s[0]] and [s[1]]
    exist. *)
Lemma readState_length d : List.length (fst (fst (readState d))) = 2%nat.
Proof.
  rewrite readState_eq; cbn [fst snd]. unfold conn_Tx.
  rewrite Bus_Tx_length. reflexivity.
Qed.

Lemma in_range_cases index :
  0 <= index < 16 ->
  ((0 <=? index) && (index <? 8) = true /\ 0 <= index < 8 /\
     (index <? 8) = true) \/
  ((0 <=? index) && (index <? 8) = false /\
     (8 <=? index) && (index <? 16) = true /\ 0 <= index - 8 < 8 /\
     (index <? 8) = false).
Proof.
  intros Hi. destruct (Z.ltb_spec index 8).
  - left. split; [|split; [lia | reflexivity]].
    apply andb_true_intro; split; [apply Z.leb_le; lia | reflexivity].
  - right. split; [apply andb_false_r|].
    split; [|split; [lia | reflexivity]].
    apply andb_true_intro; split; [apply Z.leb_le | apply Z.ltb_lt]; lia.
Qed.

Lemma out_of_range_cases index :
  index < 0 \/ 15 < index ->
  (0 <=? index) && (index <? 8) = false /\
  (8 <=? index) && (index <? 16) = false.
Proof.
  intros Hi; split; apply andb_false_iff.
  - destruct Hi; [left; apply Z.leb_gt | right; apply Z.ltb_ge]; lia.
  - destruct Hi; [left; apply Z.leb_gt | right; apply Z.ltb_ge]; lia.
Qed.

(** A valid [WriteOutput] is the assignment followed by [updateState]. *)
Lemma WriteOutput_valid index state d :
  0 <= index < 16 ->
  WriteOutput index state d = updateState (assigned d index state).
Proof.
  intros Hi. unfold WriteOutput, assigned.
  destruct (in_range_cases index Hi) as [(E1 & _ & E2) | (E1 & E2 & _ & E3)].
  - rewrite E1, E2. reflexivity.
  - rewrite E1, E2, E3. reflexivity.
Qed.

Lemma WriteOutput_invalid index state d :
  index < 0 \/ 15 < index ->
  WriteOutput index state d = (Some (range_error "WriteOutput" index), d).
Proof.
  intros Hi. unfold WriteOutput.
  destruct (out_of_range_cases index Hi) as [-> ->]. reflexivity.
Qed.

Lemma ReadOutput_valid index d :
  0 <= index < 16 -> ReadOutput index d = ((latch_bit d index, None), d).
Proof.
  intros Hi. unfold ReadOutput, latch_bit.
  destruct (in_range_cases index Hi) as [(E1 & R & E2) | (E1 & E2 & R & E3)].
  - rewrite E1, E2. unfold bind, gets, ret.
    rewrite getBit_testbit by exact R. reflexivity.
  - rewrite E1, E2, E3. unfold bind, gets, ret.
    rewrite getBit_testbit by exact R. reflexivity.
Qed.

Lemma ReadOutput_invalid index d :
  index < 0 \/ 15 < index ->
  ReadOutput index d = ((false, Some (range_error "ReadOutput" index)), d).
Proof.
  intros Hi. unfold ReadOutput.
  destruct (out_of_range_cases index Hi) as [-> ->]. reflexivity.
Qed.

(** [ReadInput] makes the transaction first; what it returns is decided
    afterwards from the error and the index. *)
Lemma ReadInput_eq index d :
  ReadInput index d =
  (input_result index (snd (fst (conn_Tx d [] [0; 0])))
                (snd (conn_Tx d [] [0; 0])),
   with_bus d (fst (fst (conn_Tx d [] [0; 0])))).
Proof.
  unfold ReadInput, bind. rewrite readState_eq. unfold input_result.
  destruct (snd (conn_Tx d [] [0; 0])); [reflexivity|].
  destruct ((0 <=? index) && (index <? 8)); [reflexivity|].
  destruct ((8 <=? index) && (index <? 16)); reflexivity.
Qed.

Lemma assigned_bit d index state :
  0 <= index < 16 -> latch_bit (assigned d index state) index = state.
Proof.
  intros Hi. unfold latch_bit, assigned.
  destruct (in_range_cases index Hi) as [(_ & R & E) | (_ & _ & R & E)];
    rewrite E; simpl;
    rewrite setBit_testbit, Z.eqb_refl by lia; reflexivity.
Qed.

Lemma assigned_other d index state j :
  0 <= index < 16 -> 0 <= j < 16 -> j <> index ->
  latch_bit (assigned d index state) j = latch_bit d j.
Proof.
  intros Hi Hj Hne. unfold latch_bit, assigned.
  destruct (Z.ltb_spec index 8); destruct (Z.ltb_spec j 8); simpl;
    try reflexivity;
    rewrite setBit_testbit by lia.
  - destruct (Z.eqb_spec j index); [contradiction | reflexivity].
  - destruct (Z.eqb_spec (j - 8) (index - 8)); [lia | reflexivity].
Qed.

(** The assignment keeps both latches bytes, whatever the index. *)
Lemma assigned_bytes d index state :
  is_byte (lowPins d) -> is_byte (highPins d) ->
  is_byte (lowPins (assigned d index state)) /\
  is_byte (highPins (assigned d index state)).
Proof.
  intros Hlo Hhi. unfold assigned.
  destruct (index <? 8); cbn [lowPins highPins];
    split; try assumption; apply setBit_byte; assumption.
Qed.

Lemma ReadOutput_state index d : snd (ReadOutput index d) = d.
Proof.
  unfold ReadOutput.
  destruct ((0 <=? index) && (index <? 8)); [reflexivity|].
  destruct ((8 <=? index) && (index <? 16)); reflexivity.
Qed.

Lemma New_eq addr (b0 : B) :
  let d0 := mkDev (i2c.mkDev b0 addr) 255 255 in
  New addr b0 =
  (match fst (updateState d0) with
   | Some e => (None, Some e)
   | None => (Some (snd (updateState d0)), None)
   end, i2c.bus (c (snd (updateState d0)))).
Proof.
  intros d0. unfold New. fold d0.
  destruct (updateState d0) as [[e|] d1]; reflexivity.
Qed.

End AnyBus.

(** ** Logs of transactions *)

Lemma last_write_snoc ops o :
  last_write (ops ++ [o]) = if is_write o then Some o else last_write ops.
Proof.
  unfold last_write. rewrite rev_unit. reflexivity.
Qed.

Lemma last_written_snoc ops o :
  last_written (ops ++ [o]) =
  if is_write o && succeeded o then Some (io_w o) else last_written ops.
Proof.
  unfold last_written. rewrite rev_unit. simpl.
  destruct (is_write o && succeeded o); reflexivity.
Qed.

Lemma find_write_succeeded l : forall o,
  find is_write l = Some o -> succeeded o = true ->
  find (fun o => is_write o && succeeded o) l = Some o.
Proof.
  induction l as [|x l IH]; intros o Hf Hok; simpl in *; [discriminate|].
  destruct (is_write x) eqn:Hw; simpl.
  - injection Hf as ->. rewrite Hok. reflexivity.
  - apply IH; assumption.
Qed.

Lemma last_write_written ops o :
  last_write ops = Some o -> io_err o = None ->
  last_written ops = Some (io_w o).
Proof.
  unfold last_write, last_written. intros Hf Hok.
  rewrite (find_write_succeeded _ o Hf); [reflexivity|].
  unfold succeeded. rewrite Hok. reflexivity.
Qed.

(** ** Calls on a recorded bus *)

Section Recorded.
Context {B : Type} `{i2c.Bus B}.
Implicit Types d : Dev (Record_ B).

Lemma conn_Tx_recorded d w r :
  Ops (fst (fst (conn_Tx d w r))) =
  log d ++ [mkIO (i2c.Addr (c d)) w (List.length r)
                 (snd (fst (conn_Tx d w r))) (snd (conn_Tx d w r))].
Proof.
  unfold conn_Tx, log, i2c.Bus_Tx at 1 2 3. cbn [i2c.Tx Record_Bus].
  unfold Record_Tx.
  pose proof (Bus_Tx_length (inner (i2c.bus (c d))) (i2c.Addr (c d)) w r)
    as L.
  destruct (i2c.Bus_Tx (inner _) _ w r) as [[b' r'] err].
  cbn [fst snd] in *. rewrite (fill_same_length r r' L). reflexivity.
Qed.

Lemma conn_Tx_no_read d w : snd (fst (conn_Tx d w [])) = [].
Proof.
  pose proof (Bus_Tx_length (i2c.bus (c d)) (i2c.Addr (c d)) w []) as L.
  fold (conn_Tx d w []) in L.
  destruct (snd (fst (conn_Tx d w []))); [reflexivity | discriminate].
Qed.

Lemma updateState_recorded d :
  log (snd (updateState d)) =
  log d ++ [write_op (i2c.Addr (c d)) (lowPins d) (highPins d)
                     (fst (updateState d))] /\
  latches_kept d (snd (updateState d)) /\
  i2c.Addr (c (snd (updateState d))) = i2c.Addr (c d).
Proof.
  rewrite updateState_eq. cbn [fst snd].
  split; [|split; [split|]]; try reflexivity.
  unfold log at 1, with_bus. cbn [c i2c.bus].
  rewrite conn_Tx_recorded, conn_Tx_no_read. reflexivity.
Qed.

Lemma assigned_conn d index state :
  log (assigned d index state) = log d /\
  i2c.Addr (c (assigned d index state)) = i2c.Addr (c d).
Proof.
  unfold assigned, log. destruct (index <? 8); split; reflexivity.
Qed.

(** A valid [WriteOutput] records one write transaction; its payload is
    the latch pair the handle holds afterwards, and its error is the
    result of the call. *)
Lemma WriteOutput_recorded index state d :
  0 <= index < 16 ->
  let d' := snd (WriteOutput index state d) in
  log d' =
  log d ++ [write_op (i2c.Addr (c d)) (lowPins d') (highPins d')
                     (fst (WriteOutput index state d))] /\
  latches_kept (assigned d index state) d' /\
  i2c.Addr (c d') = i2c.Addr (c d).
Proof.
  intros Hi d'. subst d'. rewrite (WriteOutput_valid index state d Hi).
  destruct (updateState_recorded (assigned d index state))
    as (Hlog & [Hlo Hhi] & Haddr).
  destruct (assigned_conn d index state) as [Hl Ha].
  unfold latches_kept. rewrite Hlog, Hlo, Hhi, Haddr, Hl, Ha.
  repeat split; reflexivity.
Qed.

(** [ReadInput] records one read transaction, whatever the index. *)
Lemma ReadInput_recorded index d :
  let d' := snd (ReadInput index d) in
  log d' = log d ++ [read_op (i2c.Addr (c d))
                             (snd (fst (conn_Tx d [] [0; 0])))
                             (snd (conn_Tx d [] [0; 0]))] /\
  latches_kept d d' /\
  i2c.Addr (c d') = i2c.Addr (c d).
Proof.
  rewrite ReadInput_eq. cbn [fst snd].
  split; [|split; [split|]]; try reflexivity.
  unfold log at 1, with_bus. cbn [c i2c.bus].
  rewrite conn_Tx_recorded. reflexivity.
Qed.

(** A successful [New] has recorded one transaction, the successful
    write of the two latches, both [0xff]. *)
Lemma New_success (b0 : Record_ B) addr d b' :
  New addr b0 = ((Some d, None), b') ->
  log d = Ops b0 ++ [write_op addr 255 255 None] /\
  lowPins d = 255 /\ highPins d = 255 /\
  i2c.Addr (c d) = addr /\ b' = i2c.bus (c d).
Proof.
  rewrite New_eq. cbv zeta.
  set (d0 := mkDev (i2c.mkDev b0 addr) 255 255).
  destruct (updateState_recorded d0) as (Hlog & [Hlo Hhi] & Haddr).
  destruct (fst (updateState d0)) as [e|] eqn:He; [discriminate|].
  intros E. injection E as <- <-.
  repeat split; assumption.
Qed.

Lemma index_range_dec index :
  {0 <= index < 16} + {index < 0 \/ 15 < index}.
Proof.
  destruct (Z_lt_le_dec index 0); [right; lia|].
  destruct (Z_lt_le_dec 15 index); [right; lia | left; lia].
Qed.

End Recorded.

(** ** The specification, claim by claim *)

Section Claims.
Context {B : Type} `{i2c.Bus B}.
Implicit Types d : Dev (Record_ B).

(** X17.  For an index outside 0..15, [WriteOutput] and [ReadOutput]
    return their range error, whose text names the call and the index,
    and leave the whole handle as it was, bus included: no transaction is
    recorded and the latches are unmodified. *)
Theorem range_error_without_io index d :
  index < 0 \/ 15 < index ->
  (forall state,
      WriteOutput index state d
        = (Some (range_error "WriteOutput" index), d)) /\
  ReadOutput index d = ((false, Some (range_error "ReadOutput" index)), d) /\
  (forall state, log (snd (WriteOutput index state d)) = log d) /\
  log (snd (ReadOutput index d)) = log d.
Proof.
  intros Hout.
  split; [|split; [|split]].
  - intros state. apply WriteOutput_invalid; exact Hout.
  - apply ReadOutput_invalid; exact Hout.
  - intros state. rewrite (WriteOutput_invalid index state d Hout).
    reflexivity.
  - rewrite (ReadOutput_invalid index d Hout). reflexivity.
Qed.

(** C3, as the code has it.  [WriteOutput(10, false)] on latches
    [(0xFF, 0xFF)] records exactly one transaction, the write of the
    payload [[0xFF; 0xFB]]: bit 2 of the high byte is cleared, and
    [0xFB] is [0b11111011]. *)
Theorem WriteOutput_10_false_payload (conn : i2c.Dev (Record_ B)) :
  let d := mkDev conn 255 255 in
  log (snd (WriteOutput 10 false d))
    = log d ++ [write_op (i2c.Addr conn) 255 251
                         (fst (WriteOutput 10 false d))].
Proof.
  intros d.
  destruct (WriteOutput_recorded 10 false d ltac:(lia))
    as (Hlog & [Hlo Hhi] & _).
  rewrite Hlog, Hlo, Hhi. reflexivity.
Qed.

(** C4.  For an index of 0..15, when [WriteOutput(index, state)]
    succeeds, [ReadOutput(index)] on the handle afterwards returns
    [state], and every other bit of the latch pair is as before: it is
    the same bit of the same byte, and [ReadOutput] returns the same for
    it. *)
Theorem latch_round_trip index state d :
  0 <= index < 16 ->
  fst (WriteOutput index state d) = None ->
  let d' := snd (WriteOutput index state d) in
  ReadOutput index d' = ((state, None), d') /\
  (forall j, 0 <= j < 16 -> j <> index ->
     latch_bit d' j = latch_bit d j /\
     fst (ReadOutput j d') = fst (ReadOutput j d)).
Proof.
  intros Hi _ d'.
  destruct (WriteOutput_recorded index state d Hi) as (_ & [Hlo Hhi] & _).
  fold d' in Hlo, Hhi.
  assert (Hbit : forall j, latch_bit d' j
                           = latch_bit (assigned d index state) j).
  { intros j. unfold latch_bit. rewrite Hlo, Hhi. reflexivity. }
  split.
  - rewrite ReadOutput_valid, Hbit, assigned_bit by exact Hi. reflexivity.
  - intros j Hj Hne.
    rewrite !ReadOutput_valid, Hbit, assigned_other by assumption.
    split; reflexivity.
Qed.

(** C5.  When [New] succeeds, [ReadOutput(i)] on the new handle returns
    [true] for every [i] of 0..15, and the construction has recorded
    exactly one transaction on the bus, the successful write of
    [[0xFF; 0xFF]]. *)
Theorem New_power_on_default (b0 : Record_ B) addr d b' :
  New addr b0 = ((Some d, None), b') ->
  (forall i, 0 <= i < 16 -> ReadOutput i d = ((true, None), d)) /\
  log d = Ops b0 ++ [write_op addr 255 255 None] /\
  b' = i2c.bus (c d).
Proof.
  intros HN.
  destruct (New_success b0 addr d b' HN) as (Hlog & Hlo & Hhi & _ & Hb).
  split; [|split; [exact Hlog | exact Hb]].
  intros i Hi. rewrite ReadOutput_valid by exact Hi.
  unfold latch_bit. rewrite Hlo, Hhi.
  destruct (Z.ltb_spec i 8); rewrite testbit_255 by lia; reflexivity.
Qed.

(** C6.  On any handle whose read transaction answers [[0x01; 0x80]]
    without error, [ReadInput(0)] returns [true], [ReadInput(1)] returns
    [false] and [ReadInput(15)] returns [true].  And, with no condition on
    the bus, every call of [ReadInput], on any handle and for any index,
    records exactly one read transaction and computes its result from the
    answer to that transaction: nothing is kept from an earlier call. *)
Theorem ReadInput_pass_through :
  (forall d,
      snd (fst (conn_Tx d [] [0; 0])) = [1; 128] ->
      snd (conn_Tx d [] [0; 0]) = None ->
      fst (ReadInput 0 d) = (true, None) /\
      fst (ReadInput 1 d) = (false, None) /\
      fst (ReadInput 15 d) = (true, None)) /\
  (forall index d, exists s err,
      log (snd (ReadInput index d))
        = log d ++ [read_op (i2c.Addr (c d)) s err] /\
      fst (ReadInput index d) = input_result index s err).
Proof.
  split.
  - intros d Hs Herr. rewrite !ReadInput_eq. cbn [fst]. rewrite Hs, Herr.
    repeat split.
  - intros index d.
    exists (snd (fst (conn_Tx d [] [0; 0]))), (snd (conn_Tx d [] [0; 0])).
    split; [apply ReadInput_recorded | rewrite ReadInput_eq; reflexivity].
Qed.

(** C7.  When the write transaction of [New] fails, [New] returns the
    error of the bus and no handle.  That failed write is the one
    transaction recorded. *)
Theorem New_failure (b0 : Record_ B) addr e :
  snd (i2c.Bus_Tx b0 addr [255; 255] []) = Some e ->
  fst (New addr b0) = (None, Some e) /\
  Ops (snd (New addr b0)) = Ops b0 ++ [write_op addr 255 255 (Some e)].
Proof.
  intros Hfail. rewrite New_eq. cbv zeta.
  set (d0 := mkDev (i2c.mkDev b0 addr) 255 255).
  destruct (updateState_recorded d0) as (Hlog & _).
  assert (He : fst (updateState d0) = Some e).
  { rewrite updateState_eq. exact Hfail. }
  rewrite He in *. split; [reflexivity | exact Hlog].
Qed.

(** C8.  For an index of 0..15, when the write transaction recorded by
    [WriteOutput(index, state)] has failed with [e], the call returns
    [e], and still the latch bit of [index] holds [state] afterwards:
    [ReadOutput(index)] returns it.  The payload of the failed
    transaction is the latch pair the handle keeps. *)
Theorem WriteOutput_failure_no_rollback index state d o e :
  0 <= index < 16 ->
  log (snd (WriteOutput index state d)) = log d ++ [o] ->
  io_err o = Some e ->
  let d' := snd (WriteOutput index state d) in
  fst (WriteOutput index state d) = Some e /\
  io_w o = [lowPins d'; highPins d'] /\
  latch_bit d' index = state /\
  ReadOutput index d' = ((state, None), d').
Proof.
  intros Hi Ho He d'.
  destruct (WriteOutput_recorded index state d Hi) as (Hlog & [Hlo Hhi] & _).
  fold d' in Hlog, Hlo, Hhi, Ho.
  rewrite Hlog in Ho. apply app_inv_head in Ho. injection Ho as Ho.
  assert (Hbit : latch_bit d' index = state).
  { unfold latch_bit. rewrite Hlo, Hhi.
    apply (assigned_bit d index state Hi). }
  subst o. cbn [io_err io_w write_op] in *.
  repeat split; try assumption.
  rewrite ReadOutput_valid, Hbit by exact Hi. reflexivity.
Qed.

(** C9.  [ReadOutput] leaves the whole handle as it was, for every
    index: both latches, and the bus, on which nothing is recorded.
    [ReadInput] leaves both latches as they were, for every index. *)
Theorem reads_keep_latches index d :
  snd (ReadOutput index d) = d /\
  latches_kept d (snd (ReadOutput index d)) /\
  log (snd (ReadOutput index d)) = log d /\
  latches_kept d (snd (ReadInput index d)).
Proof.
  rewrite ReadOutput_state.
  repeat split; apply (ReadInput_recorded index d).
Qed.

(** C10.  [ReadInput] makes its read transaction before it looks at the
    index: when the transaction fails with [e], the call returns [e]
    for every index, inside 0..15 or not, and that transaction is
    recorded. *)
Theorem ReadInput_bus_error_first index d e :
  snd (conn_Tx d [] [0; 0]) = Some e ->
  fst (ReadInput index d) = (false, Some e) /\
  exists s,
    log (snd (ReadInput index d))
      = log d ++ [read_op (i2c.Addr (c d)) s (Some e)].
Proof.
  intros Hfail. split.
  - rewrite ReadInput_eq. cbn [fst]. rewrite Hfail. reflexivity.
  - exists (snd (fst (conn_Tx d [] [0; 0]))).
    destruct (ReadInput_recorded index d) as (Hlog & _).
    rewrite Hfail in Hlog. exact Hlog.
Qed.

(** C2, as the code has it.  On every handle a client can hold, the
    latch bytes are the payload of the most recent write transaction
    made on the bus, whether that transaction succeeded or failed:
    [WriteOutput] assigns the latch first, then writes, and keeps the
    assigned value when the write fails.  So invariant I1 holds whenever
    that most recent write transaction succeeded. *)
Theorem latch_invariant (b0 : Record_ B) addr d :
  reachable b0 addr d ->
  exists o,
    last_write (log d) = Some o /\
    io_w o = [lowPins d; highPins d] /\
    (io_err o = None -> I1 d).
Proof.
  intros Hreach.
  assert (Hmain : exists o, last_write (log d) = Some o /\
                            io_w o = [lowPins d; highPins d]).
  { induction Hreach as [d b' HN | d k Hreach (o & Hlast & Hw)].
    - destruct (New_success b0 addr d b' HN) as (Hlog & Hlo & Hhi & _).
      exists (write_op addr 255 255 None).
      rewrite Hlog, last_write_snoc, Hlo, Hhi. split; reflexivity.
    - destruct k as [index state | index | index]; cbn [after].
      + destruct (index_range_dec index) as [Hi | Hout].
        * destruct (WriteOutput_recorded index state d Hi) as (Hlog & _).
          cbv zeta in Hlog. eexists. rewrite Hlog, last_write_snoc.
          split; reflexivity.
        * rewrite (WriteOutput_invalid index state d Hout). cbn [snd].
          exists o. split; assumption.
      + rewrite ReadOutput_state. exists o. split; assumption.
      + destruct (ReadInput_recorded index d) as (Hlog & [Hlo Hhi] & _).
        cbv zeta in Hlog, Hlo, Hhi. exists o.
        rewrite Hlog, last_write_snoc, Hlo, Hhi. split; assumption. }
  destruct Hmain as (o & Hlast & Hw). exists o.
  split; [exact Hlast | split; [exact Hw|]].
  intros Hok. unfold I1.
  rewrite (last_write_written _ o Hlast Hok), Hw. reflexivity.
Qed.

End Claims.

(** ** The claims at concrete handles *)

(** X17 at index 16 on a bus that answers every transaction. *)
Lemma range_error_without_io_witness :
  let d := handle [] 255 255 in
  (16 < 0 \/ 15 < 16) /\
  ((forall state,
       WriteOutput 16 state d = (Some (range_error "WriteOutput" 16), d)) /\
   ReadOutput 16 d = ((false, Some (range_error "ReadOutput" 16)), d) /\
   (forall state, log (snd (WriteOutput 16 state d)) = log d) /\
   log (snd (ReadOutput 16 d)) = log d).
Proof.
  intros d. split.
  - right; reflexivity.
  - apply (range_error_without_io 16 d). right; reflexivity.
Defined.

(** C1 on the code, at index 16.  Range enforcement as the specification
    words it does not hold there.  On a bus that answers every
    transaction, [WriteOutput(16, _)] and [ReadOutput(16)] return their
    range error and record nothing, but [ReadInput(16)] returns its range
    error only after it has made a read transaction, which is recorded.
    On a bus that does not acknowledge, [ReadInput(16)] returns the error
    of the bus, not the range error. *)
Theorem ReadInput_out_of_range_transacts :
  let d := handle [] 255 255 in
  (forall state,
      WriteOutput 16 state d = (Some (range_error "WriteOutput" 16), d)) /\
  ReadOutput 16 d = ((false, Some (range_error "ReadOutput" 16)), d) /\
  fst (ReadInput 16 d) = (false, Some (range_error "ReadInput" 16)) /\
  log (snd (ReadInput 16 d)) = log d ++ [read_op 32 [0; 0] None] /\
  fst (ReadInput 16 (handle [([], Some no_ack)] 255 255))
    = (false, Some no_ack) /\
  ~ range_enforced d 16.
Proof.
  intros d.
  split; [intros state; reflexivity|].
  split; [reflexivity|].
  split; [reflexivity|].
  split; [reflexivity|].
  split; [reflexivity|].
  intros (_ & _ & _ & Hlog & _).
  vm_compute in Hlog. discriminate Hlog.
Qed.

(** The specification's wording of C2 fails: after a successful [New] and
    a [WriteOutput(0, false)] whose transaction fails, the latches are
    [(0xFE, 0xFF)] and the last payload written with success is
    [[0xFF; 0xFF]]. *)
Lemma I1_broken_by_failed_write :
  ~ (forall d,
       reachable (recording [([], None); ([], Some no_ack)]) 32 d -> I1 d).
Proof.
  intros Hall.
  pose (b1 := mkRecord (B := Playback) [([], Some no_ack)]
                       [write_op 32 255 255 None]).
  pose (d1 := mkDev (i2c.mkDev b1 32) 255 255).
  assert (Hreach : reachable (recording [([], None); ([], Some no_ack)]) 32
                             (after (CallWriteOutput 0 false) d1)).
  { apply reach_call. apply (reach_New _ _ d1 b1). reflexivity. }
  apply Hall in Hreach. vm_compute in Hreach. discriminate Hreach.
Qed.

(** C2 on that same run: the latches are the payload of the failed
    write. *)
Lemma latch_invariant_witness :
  let b0 := recording [([], None); ([], Some no_ack)] in
  let b1 := mkRecord (B := Playback) [([], Some no_ack)]
                     [write_op 32 255 255 None] in
  let d := after (CallWriteOutput 0 false) (mkDev (i2c.mkDev b1 32) 255 255) in
  reachable b0 32 d /\
  exists o,
    last_write (log d) = Some o /\
    io_w o = [lowPins d; highPins d] /\
    (io_err o = None -> I1 d).
Proof.
  intros b0 b1 d.
  assert (Hreach : reachable b0 32 d).
  { apply reach_call. apply (reach_New _ _ _ b1). reflexivity. }
  split; [exact Hreach | exact (latch_invariant b0 32 d Hreach)].
Defined.

(** The specification's wording of C3 fails: the payload is not
    [[0xFF; 0xFD]]. *)
Lemma WriteOutput_10_false_not_FD :
  ~ (exists err,
       log (snd (WriteOutput 10 false (handle [] 255 255)))
         = log (handle [] 255 255) ++ [write_op 32 255 253 err]).
Proof.
  intros [err Hlog]. vm_compute in Hlog. discriminate Hlog.
Qed.

(** C4 at pin 3, driven low on a bus that answers every transaction. *)
Lemma latch_round_trip_witness :
  let d := handle [] 255 255 in
  let d' := snd (WriteOutput 3 false d) in
  0 <= 3 < 16 /\
  fst (WriteOutput 3 false d) = None /\
  ReadOutput 3 d' = ((false, None), d') /\
  (forall j, 0 <= j < 16 -> j <> 3 ->
     latch_bit d' j = latch_bit d j /\
     fst (ReadOutput j d') = fst (ReadOutput j d)).
Proof.
  intros d d'.
  assert (Hi : 0 <= 3 < 16) by (split; [discriminate | reflexivity]).
  split; [exact Hi | split; [reflexivity|]].
  exact (latch_round_trip 3 false d Hi eq_refl).
Defined.

(** C5 on a bus that answers every transaction. *)
Lemma New_power_on_default_witness :
  let b' := mkRecord (B := Playback) [] [write_op 32 255 255 None] in
  let d := mkDev (i2c.mkDev b' 32) 255 255 in
  New 32 (recording []) = ((Some d, None), b') /\
  (forall i, 0 <= i < 16 -> ReadOutput i d = ((true, None), d)) /\
  log d = Ops (recording []) ++ [write_op 32 255 255 None] /\
  b' = i2c.bus (c d).
Proof.
  intros b' d. split; [reflexivity|].
  exact (New_power_on_default (recording []) 32 d b' eq_refl).
Defined.

(** C6 on a bus whose next answer is [[0x01; 0x80]], and the second half
    on scripted buses. *)
Lemma ReadInput_pass_through_witness :
  let d := handle [([1; 128], None)] 255 255 in
  snd (fst (conn_Tx d [] [0; 0])) = [1; 128] /\
  snd (conn_Tx d [] [0; 0]) = None /\
  (fst (ReadInput 0 d) = (true, None) /\
   fst (ReadInput 1 d) = (false, None) /\
   fst (ReadInput 15 d) = (true, None)) /\
  (forall index (d1 : Dev (Record_ Playback)), exists s err,
      log (snd (ReadInput index d1))
        = log d1 ++ [read_op (i2c.Addr (c d1)) s err] /\
      fst (ReadInput index d1) = input_result index s err).
Proof.
  intros d. split; [reflexivity | split; [reflexivity|]].
  split.
  - exact (proj1 ReadInput_pass_through d eq_refl eq_refl).
  - exact (proj2 ReadInput_pass_through).
Defined.

(** C7 on a bus that does not acknowledge. *)
Lemma New_failure_witness :
  let b0 := recording [([], Some no_ack)] in
  snd (i2c.Bus_Tx b0 32 [255; 255] []) = Some no_ack /\
  fst (New 32 b0) = (None, Some no_ack) /\
  Ops (snd (New 32 b0)) = Ops b0 ++ [write_op 32 255 255 (Some no_ack)].
Proof.
  intros b0. split; [reflexivity|].
  exact (New_failure b0 32 no_ack eq_refl).
Defined.

(** C8 at pin 3, driven low on a bus that does not acknowledge. *)
Lemma WriteOutput_failure_no_rollback_witness :
  let d := handle [([], Some no_ack)] 255 255 in
  let d' := snd (WriteOutput 3 false d) in
  let o := write_op 32 247 255 (Some no_ack) in
  0 <= 3 < 16 /\
  log d' = log d ++ [o] /\
  io_err o = Some no_ack /\
  fst (WriteOutput 3 false d) = Some no_ack /\
  io_w o = [lowPins d'; highPins d'] /\
  latch_bit d' 3 = false /\
  ReadOutput 3 d' = ((false, None), d').
Proof.
  intros d d' o.
  assert (Hi : 0 <= 3 < 16) by (split; [discriminate | reflexivity]).
  split; [exact Hi | split; [reflexivity | split; [reflexivity|]]].
  exact (WriteOutput_failure_no_rollback 3 false d o no_ack Hi eq_refl eq_refl).
Defined.

(** C10 at index 99 on a bus that does not acknowledge. *)
Lemma ReadInput_bus_error_first_witness :
  let d := handle [([], Some no_ack)] 255 255 in
  snd (conn_Tx d [] [0; 0]) = Some no_ack /\
  fst (ReadInput 99 d) = (false, Some no_ack) /\
  exists s,
    log (snd (ReadInput 99 d)) = log d ++ [read_op (i2c.Addr (c d)) s (Some no_ack)].
Proof.
  intros d. split; [reflexivity|].
  exact (ReadInput_bus_error_first 99 d no_ack eq_refl).
Defined.


(** * Further properties of the code *)

(** ** The bit helpers at their edges *)

Lemma getMask_low index :
  index mod 256 < 8 -> getMask index = 2 ^ (index mod 256).
Proof.
  intros Hn. unfold getMask.
  pose proof (Z.mod_pos_bound index 256 ltac:(lia)) as Hb.
  rewrite Z.shiftl_1_l. set (n := index mod 256) in *.
  apply Z.mod_small. split; [apply Z.pow_nonneg; lia|].
  change 256 with (2 ^ 8). apply Z.pow_lt_mono_r; lia.
Qed.

Lemma getMask_high index : 8 <= index mod 256 -> getMask index = 0.
Proof.
  intros Hn. unfold getMask. rewrite Z.shiftl_1_l.
  set (n := index mod 256) in *.
  replace n with ((n - 8) + 8) by lia.
  rewrite Z.pow_add_r by lia.
  change (2 ^ 8) with 256. apply Z.mod_mul. lia.
Qed.

Lemma byte_testbit_high v k : is_byte v -> 8 <= k -> Z.testbit v k = false.
Proof.
  intros Hv Hk. exact (proj1 (is_byte_high_bits v) Hv k Hk).
Qed.

Lemma testbit_255_high k : 8 <= k -> Z.testbit 255 k = false.
Proof.
  apply byte_testbit_high. unfold is_byte. lia.
Qed.

Lemma is_byteb_spec x : is_byteb x = true <-> is_byte x.
Proof.
  unfold is_byteb, is_byte.
  rewrite andb_true_iff, Z.leb_le, Z.ltb_lt. reflexivity.
Qed.

(** Bit by bit: the bits of a byte, of a mask and of [255], below and
    above bit 8. *)
Ltac bitwise v m :=
  let k := fresh "k" in
  let Hk := fresh "Hk" in
  apply Z.bits_inj'; intros k Hk;
  repeat (rewrite Z.lor_spec || rewrite Z.land_spec || rewrite Z.lxor_spec);
  destruct (Z_lt_le_dec k 8);
  [ rewrite ?testbit_255 by lia
  | rewrite ?testbit_255_high, ?(byte_testbit_high v k),
      ?(byte_testbit_high m k) by assumption ];
  destruct (Z.testbit v k), (Z.testbit m k); reflexivity.

Lemma setBit_overwrite v i s s' :
  is_byte v -> setBit (setBit v i s) i s' = setBit v i s'.
Proof.
  intros Hv. pose proof (getMask_byte i) as Hm.
  unfold setBit, bnot. destruct s, s'; bitwise v (getMask i).
Qed.

Lemma setBit_same v i s :
  is_byte v -> 0 <= i < 8 -> Z.testbit v i = s -> setBit v i s = v.
Proof.
  intros Hv Hi Hs. apply Z.bits_inj'; intros k Hk.
  destruct (Z_lt_le_dec k 8).
  - rewrite setBit_testbit by lia.
    destruct (Z.eqb_spec k i); [subst; reflexivity | reflexivity].
  - rewrite (byte_testbit_high v k Hv) by assumption.
    apply byte_testbit_high; [apply setBit_byte; exact Hv | assumption].
Qed.

Lemma setBit_commute v i j s t :
  0 <= i < 8 -> 0 <= j < 8 -> i <> j ->
  setBit (setBit v i s) j t = setBit (setBit v j t) i s.
Proof.
  intros Hi Hj Hne. unfold setBit, bnot. rewrite !getMask_pin by assumption.
  destruct s, t; apply Z.bits_inj'; intros k Hk;
    repeat (rewrite Z.lor_spec || rewrite Z.land_spec || rewrite Z.lxor_spec);
    rewrite !Z.pow2_bits_eqb by lia;
    (destruct (Z_lt_le_dec k 8);
     [ rewrite ?testbit_255 by lia | rewrite ?testbit_255_high by assumption ]);
    destruct (Z.eqb_spec i k), (Z.eqb_spec j k); try (exfalso; lia);
    destruct (Z.testbit v k); reflexivity.
Qed.

(** X1.  [getMask] looks only at the low eight bits of the index: it is
    the single bit [index mod 256] when that is below 8, and zero
    otherwise.  So index 256 gives the mask of pin 0 and index 8 gives no
    mask at all. *)
Theorem getMask_closed_form index :
  getMask index = if index mod 256 <? 8 then 2 ^ (index mod 256) else 0.
Proof.
  destruct (Z.ltb_spec (index mod 256) 8).
  - apply getMask_low; assumption.
  - apply getMask_high; assumption.
Qed.

(** X2.  On a byte, a bit index whose low eight bits are 8 or more is
    outside the port: [setBit] returns the byte as it was, for either
    state, and [getBit] returns [false]. *)
Theorem setBit_getBit_outside_port v index s :
  is_byte v -> 8 <= index mod 256 ->
  setBit v index s = v /\ getBit v index = false.
Proof.
  intros Hv Hn. unfold setBit, getBit, bnot. rewrite (getMask_high index Hn).
  split.
  - destruct s.
    + apply Z.lor_0_r.
    + change (Z.lxor 0 255) with (Z.ones 8).
      rewrite Z.land_ones by lia. apply Z.mod_small. exact Hv.
  - rewrite Z.land_0_r. reflexivity.
Qed.

Lemma setBit_getBit_outside_port_witness :
  is_byte 165 /\ 8 <= 300 mod 256 /\
  setBit 165 300 false = 165 /\ getBit 165 300 = false.
Proof.
  assert (Hv : is_byte 165) by (split; [discriminate | reflexivity]).
  assert (Hn : 8 <= 300 mod 256) by discriminate.
  split; [exact Hv | split; [exact Hn|]].
  exact (setBit_getBit_outside_port 165 300 false Hv Hn).
Defined.

(** ** One call, then a sequence of calls *)

Section Sequences.
Context {B : Type} `{i2c.Bus B}.
Implicit Types d : Dev (Record_ B).

Lemma latches_eq d d' : latches_kept d d' <-> latches d' = latches d.
Proof.
  unfold latches_kept, latches. split.
  - intros [-> ->]. reflexivity.
  - intros E. injection E as -> ->. split; reflexivity.
Qed.

Lemma transacts_write index state :
  transacts (CallWriteOutput index state) = true <-> 0 <= index < 16.
Proof.
  cbn [transacts]. rewrite andb_true_iff, Z.leb_le, Z.ltb_lt. reflexivity.
Qed.

Lemma transacts_write_out index state :
  index < 0 \/ 15 < index -> transacts (CallWriteOutput index state) = false.
Proof.
  intros Hout. destruct (transacts _) eqn:E; [|reflexivity].
  apply transacts_write in E. lia.
Qed.

Lemma write_op_driver addr lo hi err :
  is_byte lo -> is_byte hi -> driver_op addr (write_op addr lo hi err) = true.
Proof.
  intros Hlo Hhi. unfold driver_op, write_op. cbn.
  rewrite Z.eqb_refl.
  rewrite (proj2 (is_byteb_spec lo) Hlo), (proj2 (is_byteb_spec hi) Hhi).
  reflexivity.
Qed.

Lemma read_op_driver addr s err :
  List.length s = 2%nat -> driver_op addr (read_op addr s err) = true.
Proof.
  intros Hs. unfold driver_op, read_op. cbn.
  rewrite Z.eqb_refl, Hs. reflexivity.
Qed.

Lemma conn_Tx_read_length d :
  List.length (snd (fst (conn_Tx d [] [0; 0]))) = 2%nat.
Proof.
  unfold conn_Tx. rewrite Bus_Tx_length. reflexivity.
Qed.

(** What one call does to the address, the latches and the log. *)
Lemma after_step k d :
  i2c.Addr (c (after k d)) = i2c.Addr (c d) /\
  (is_byte (lowPins d) -> is_byte (highPins d) ->
   is_byte (lowPins (after k d)) /\ is_byte (highPins (after k d))) /\
  exists ops,
    log (after k d) = log d ++ ops /\
    List.length ops = (if transacts k then 1 else 0)%nat /\
    (is_byte (lowPins d) -> is_byte (highPins d) ->
     forallb (driver_op (i2c.Addr (c d))) ops = true).
Proof.
  destruct k as [index state | index | index]; cbn [after].
  - destruct (index_range_dec index) as [Hi | Hout].
    + destruct (WriteOutput_recorded index state d Hi)
        as (Hlog & [Hlo Hhi] & Haddr).
      cbv zeta in Hlog, Hlo, Hhi, Haddr.
      assert (Hb : is_byte (lowPins d) -> is_byte (highPins d) ->
                   is_byte (lowPins (snd (WriteOutput index state d))) /\
                   is_byte (highPins (snd (WriteOutput index state d)))).
      { intros Bl Bh. rewrite Hlo, Hhi. apply assigned_bytes; assumption. }
      split; [exact Haddr | split; [exact Hb|]].
      eexists. split; [exact Hlog | split].
      * rewrite (proj2 (transacts_write index state) Hi). reflexivity.
      * intros Bl Bh. destruct (Hb Bl Bh) as [Bl' Bh']. cbn [forallb].
        rewrite write_op_driver by assumption. reflexivity.
    + rewrite (WriteOutput_invalid index state d Hout). cbn [snd].
      split; [reflexivity | split; [tauto|]].
      exists []. rewrite app_nil_r, (transacts_write_out index state Hout).
      repeat split.
  - rewrite ReadOutput_state.
    split; [reflexivity | split; [tauto|]].
    exists []. rewrite app_nil_r. repeat split.
  - destruct (ReadInput_recorded index d) as (Hlog & [Hlo Hhi] & Haddr).
    cbv zeta in Hlog, Hlo, Hhi, Haddr.
    split; [exact Haddr | split].
    + rewrite Hlo, Hhi. tauto.
    + eexists. split; [exact Hlog | split; [reflexivity|]].
      intros _ _. cbn [forallb].
      rewrite read_op_driver by apply conn_Tx_read_length. reflexivity.
Qed.

Lemma run_cons k ks d : run (k :: ks) d = run ks (after k d).
Proof. reflexivity. Qed.

(** The same facts along a sequence of calls. *)
Lemma run_steps ks : forall d,
  i2c.Addr (c (run ks d)) = i2c.Addr (c d) /\
  (is_byte (lowPins d) -> is_byte (highPins d) ->
   is_byte (lowPins (run ks d)) /\ is_byte (highPins (run ks d))) /\
  exists ops,
    log (run ks d) = log d ++ ops /\
    List.length ops = List.length (filter transacts ks) /\
    (is_byte (lowPins d) -> is_byte (highPins d) ->
     forallb (driver_op (i2c.Addr (c d))) ops = true).
Proof.
  induction ks as [|k ks IH]; intros d.
  - split; [reflexivity | split; [tauto|]].
    exists []. rewrite app_nil_r. repeat split.
  - rewrite run_cons.
    destruct (after_step k d) as (Ha & Hb & ops1 & Hl1 & Hn1 & Hd1).
    destruct (IH (after k d)) as (Ha' & Hb' & ops2 & Hl2 & Hn2 & Hd2).
    split; [congruence | split].
    + intros Bl Bh. destruct (Hb Bl Bh) as [Bl' Bh']. auto.
    + exists (ops1 ++ ops2). split; [|split].
      * rewrite Hl2, Hl1, app_assoc. reflexivity.
      * rewrite length_app, Hn1, Hn2. cbn [filter].
        destruct (transacts k); reflexivity.
      * intros Bl Bh. destruct (Hb Bl Bh) as [Bl' Bh'].
        rewrite forallb_app, (Hd1 Bl Bh).
        rewrite Ha in Hd2. rewrite (Hd2 Bl' Bh'). reflexivity.
Qed.

(** The latch bit of a pin after one call. *)
Lemma latch_bit_after k d i :
  0 <= i < 16 ->
  latch_bit (after k d) i =
  match k with
  | CallWriteOutput j s => if j =? i then s else latch_bit d i
  | _ => latch_bit d i
  end.
Proof.
  intros Hi. destruct k as [index state | index | index]; cbn [after].
  - destruct (index_range_dec index) as [Hv | Hout].
    + destruct (WriteOutput_recorded index state d Hv) as (_ & [Hlo Hhi] & _).
      cbv zeta in Hlo, Hhi.
      assert (E : latch_bit (snd (WriteOutput index state d)) i
                  = latch_bit (assigned d index state) i).
      { unfold latch_bit. rewrite Hlo, Hhi. reflexivity. }
      rewrite E. destruct (Z.eqb_spec index i) as [->|Hne].
      * apply assigned_bit; exact Hi.
      * apply assigned_other; auto.
    + rewrite (WriteOutput_invalid index state d Hout). cbn [snd].
      destruct (Z.eqb_spec index i); [lia | reflexivity].
  - rewrite ReadOutput_state. reflexivity.
  - destruct (ReadInput_recorded index d) as (_ & [Hlo Hhi] & _).
    cbv zeta in Hlo, Hhi. unfold latch_bit. rewrite Hlo, Hhi. reflexivity.
Qed.

Lemma latch_bit_run ks i : forall d,
  0 <= i < 16 ->
  latch_bit (run ks d) i = commanded ks i (latch_bit d i).
Proof.
  induction ks as [|k ks IH]; intros d Hi; [reflexivity|].
  rewrite run_cons, IH, latch_bit_after by exact Hi.
  destruct k; reflexivity.
Qed.

End Sequences.

(** ** Latches and words *)

Lemma word16_testbit lo hi j :
  is_byte lo -> 0 <= j ->
  Z.testbit (word16 lo hi) j =
  if j <? 8 then Z.testbit lo j else Z.testbit hi (j - 8).
Proof.
  intros Hlo Hj. unfold word16, is_byte in *.
  rewrite (Z.mul_comm 256 hi).
  destruct (Z.ltb_spec j 8).
  - rewrite <- (Z.mod_pow2_bits_low (lo + hi * 256) 8 j) by lia.
    change (2 ^ 8) with 256.
    rewrite Z.mod_add, Z.mod_small by lia. reflexivity.
  - replace j with ((j - 8) + 8) at 1 by lia.
    rewrite <- Z.div_pow2_bits by lia.
    change (2 ^ 8) with 256.
    rewrite Z.div_add, Z.div_small by lia. reflexivity.
Qed.

Lemma assigned_latches_congr {B1 B2} (d1 : Dev B1) (d2 : Dev B2) index state :
  latches d1 = latches d2 ->
  latches (assigned d1 index state) = latches (assigned d2 index state).
Proof.
  unfold latches, assigned. intros E. injection E as -> ->.
  destruct (index <? 8); reflexivity.
Qed.

Section LatchSteps.
Context {B : Type} `{i2c.Bus B}.
Implicit Types d : Dev (Record_ B).

(** The latch pair after one call: the assignment for a [WriteOutput]
    with an index of 0..15, no change otherwise. *)
Lemma after_latches k d :
  latches (after k d) =
  match k with
  | CallWriteOutput index state =>
      if transacts k then latches (assigned d index state) else latches d
  | _ => latches d
  end.
Proof.
  destruct k as [index state | index | index]; cbn [after].
  - destruct (index_range_dec index) as [Hi | Hout].
    + rewrite (proj2 (transacts_write index state) Hi).
      apply latches_eq. apply (WriteOutput_recorded index state d Hi).
    + rewrite (transacts_write_out index state Hout).
      rewrite (WriteOutput_invalid index state d Hout). reflexivity.
  - rewrite ReadOutput_state. reflexivity.
  - apply latches_eq. apply (ReadInput_recorded index d).
Qed.

Lemma after_write_latches index state d :
  0 <= index < 16 ->
  latches (after (CallWriteOutput index state) d)
  = latches (assigned d index state).
Proof.
  intros Hi. rewrite after_latches.
  rewrite (proj2 (transacts_write index state) Hi). reflexivity.
Qed.

End LatchSteps.

Lemma after_latches_congr {B1 B2} `{i2c.Bus B1} `{i2c.Bus B2}
  (d1 : Dev (Record_ B1)) (d2 : Dev (Record_ B2)) k :
  latches d1 = latches d2 -> latches (after k d1) = latches (after k d2).
Proof.
  intros E. rewrite !after_latches.
  destruct k as [index state | index | index]; try exact E.
  destruct (transacts _); [apply assigned_latches_congr|]; exact E.
Qed.

(** ** How calls compose *)

Section Composition.
Context {B : Type} `{i2c.Bus B}.
Implicit Types d : Dev (Record_ B).

(** X3.  Two [WriteOutput] calls on the same pin of 0..15: the second
    state wins.  The latch pair is the one the second call alone would
    give, whether the transactions succeed or not. *)
Theorem WriteOutput_overrides index s s' d :
  0 <= index < 16 ->
  is_byte (lowPins d) -> is_byte (highPins d) ->
  latches (after (CallWriteOutput index s')
                 (after (CallWriteOutput index s) d))
  = latches (after (CallWriteOutput index s') d).
Proof.
  intros Hi Bl Bh. rewrite !after_write_latches by exact Hi.
  rewrite (assigned_latches_congr _ (assigned d index s) index s')
    by (apply after_write_latches; exact Hi).
  unfold latches, assigned.
  destruct (index <? 8); cbn [lowPins highPins];
    rewrite setBit_overwrite by assumption; reflexivity.
Qed.

(** X4.  [WriteOutput] calls on two different pins of 0..15 commute on
    the latch pair: either order leaves the same two bytes. *)
Theorem WriteOutput_commute i j s t d :
  0 <= i < 16 -> 0 <= j < 16 -> i <> j ->
  latches (after (CallWriteOutput j t) (after (CallWriteOutput i s) d))
  = latches (after (CallWriteOutput i s) (after (CallWriteOutput j t) d)).
Proof.
  intros Hi Hj Hne. rewrite !after_write_latches by assumption.
  rewrite (assigned_latches_congr _ (assigned d i s) j t)
    by (apply after_write_latches; exact Hi).
  rewrite (assigned_latches_congr
             (after (CallWriteOutput j t) d) (assigned d j t) i s)
    by (apply after_write_latches; exact Hj).
  unfold latches, assigned.
  destruct (Z.ltb_spec i 8), (Z.ltb_spec j 8); cbn [lowPins highPins];
    try reflexivity.
  - rewrite (setBit_commute (lowPins d) i j s t) by lia. reflexivity.
  - rewrite (setBit_commute (highPins d) (i - 8) (j - 8) s t) by lia.
    reflexivity.
Qed.

(** X6.  A handle made by [New] keeps, through any sequence of calls, two
    latches that are bytes and the address it was made with. *)
Theorem handle_invariant (b0 : Record_ B) addr d b' ks :
  New addr b0 = ((Some d, None), b') ->
  is_byte (lowPins (run ks d)) /\ is_byte (highPins (run ks d)) /\
  i2c.Addr (c (run ks d)) = addr.
Proof.
  intros HN.
  destruct (New_success b0 addr d b' HN) as (_ & Hlo & Hhi & Haddr & _).
  destruct (run_steps ks d) as (Ha & Hb & _).
  assert (Bl : is_byte (lowPins d)) by (rewrite Hlo; unfold is_byte; lia).
  assert (Bh : is_byte (highPins d)) by (rewrite Hhi; unfold is_byte; lia).
  destruct (Hb Bl Bh) as [Bl' Bh'].
  split; [exact Bl' | split; [exact Bh' | congruence]].
Qed.

(** X7.  Everything a handle puts on the bus, from [New] on and through
    any sequence of calls, is a transaction of the wire protocol at the
    handle's address: a write of two bytes that reads nothing, or a read
    into two bytes that sends nothing. *)
Theorem wire_protocol (b0 : Record_ B) addr d b' ks :
  New addr b0 = ((Some d, None), b') ->
  exists ops,
    log (run ks d) = Ops b0 ++ ops /\
    forallb (driver_op addr) ops = true.
Proof.
  intros HN.
  destruct (New_success b0 addr d b' HN) as (Hlog & Hlo & Hhi & Haddr & _).
  destruct (run_steps ks d) as (_ & _ & ops & Hl & _ & Hd).
  assert (Bl : is_byte (lowPins d)) by (rewrite Hlo; unfold is_byte; lia).
  assert (Bh : is_byte (highPins d)) by (rewrite Hhi; unfold is_byte; lia).
  exists (write_op addr 255 255 None :: ops). split.
  - rewrite Hl, Hlog, <- app_assoc. reflexivity.
  - cbn [forallb]. rewrite Haddr in Hd. rewrite (Hd Bl Bh).
    rewrite write_op_driver by (unfold is_byte; lia). reflexivity.
Qed.

(** X8.  A sequence of calls makes as many transactions as it has calls
    that reach the bus: one for each [WriteOutput] with an index of 0..15,
    one for each [ReadInput], none for a [ReadOutput] or for a
    [WriteOutput] with another index. *)
Theorem transaction_count ks d :
  List.length (log (run ks d))
  = (List.length (log d) + List.length (filter transacts ks))%nat.
Proof.
  destruct (run_steps ks d) as (_ & _ & ops & Hl & Hn & _).
  rewrite Hl, length_app, Hn. reflexivity.
Qed.

(** X9.  After [New] and any sequence of calls, [ReadOutput(i)] for a pin
    of 0..15 returns the state of the most recent [WriteOutput] to that
    pin, and [true] when there was none, whatever the bus answered
    meanwhile. *)
Theorem last_write_wins (b0 : Record_ B) addr d b' ks i :
  New addr b0 = ((Some d, None), b') ->
  0 <= i < 16 ->
  ReadOutput i (run ks d) = ((commanded ks i true, None), run ks d).
Proof.
  intros HN Hi.
  destruct (New_success b0 addr d b' HN) as (_ & Hlo & Hhi & _).
  rewrite ReadOutput_valid, latch_bit_run by exact Hi.
  assert (E : latch_bit d i = true).
  { unfold latch_bit. rewrite Hlo, Hhi.
    destruct (Z.ltb_spec i 8); apply testbit_255; lia. }
  rewrite E. reflexivity.
Qed.

(** X12.  A [WriteOutput] that returns no error had an index of 0..15 and
    leaves invariant I1 true: the latches are the payload last written
    with success.  This holds whatever came before, also after writes
    that failed. *)
Theorem WriteOutput_success_synchronizes index state d :
  fst (WriteOutput index state d) = None ->
  0 <= index < 16 /\ I1 (snd (WriteOutput index state d)).
Proof.
  intros Hok. destruct (index_range_dec index) as [Hi | Hout].
  - split; [exact Hi|].
    destruct (WriteOutput_recorded index state d Hi) as (Hlog & _).
    cbv zeta in Hlog. unfold I1.
    rewrite Hlog at 1. rewrite Hok, last_written_snoc. reflexivity.
  - rewrite (WriteOutput_invalid index state d Hout) in Hok. discriminate Hok.
Qed.

(** X13.  A [WriteOutput] that commands the state a pin of 0..15 already
    has leaves both latches as they were and still makes its write
    transaction, with the unchanged pair as payload: the call never skips
    the bus. *)
Theorem WriteOutput_same_state_transmits index state d :
  0 <= index < 16 ->
  is_byte (lowPins d) -> is_byte (highPins d) ->
  latch_bit d index = state ->
  let d' := snd (WriteOutput index state d) in
  latches_kept d d' /\
  log d' = log d ++ [write_op (i2c.Addr (c d)) (lowPins d) (highPins d)
                              (fst (WriteOutput index state d))].
Proof.
  intros Hi Bl Bh Hbit d'.
  destruct (WriteOutput_recorded index state d Hi) as (Hlog & Hkept & _).
  fold d' in Hlog, Hkept.
  assert (Hsame : latches_kept d (assigned d index state)).
  { unfold latches_kept, assigned, latch_bit in *.
    destruct (Z.ltb_spec index 8); cbn [lowPins highPins];
      rewrite setBit_same by (assumption || lia); split; reflexivity. }
  destruct Hkept as [Hlo Hhi]. destruct Hsame as [Slo Shi].
  assert (Hk : latches_kept d d') by (split; congruence).
  split; [exact Hk|].
  destruct Hk as [Klo Khi]. rewrite Hlog, Klo, Khi. reflexivity.
Qed.

End Composition.

(** X5.  The latches never depend on the bus.  Two handles on two buses
    of any kind, with the same latch pair, have the same latch pair after
    the same sequence of calls, whatever either bus answers. *)
Theorem latches_bus_independent {B1 B2} `{i2c.Bus B1} `{i2c.Bus B2}
  (ks : list call) (d1 : Dev (Record_ B1)) (d2 : Dev (Record_ B2)) :
  latches d1 = latches d2 ->
  latches (run ks d1) = latches (run ks d2).
Proof.
  revert d1 d2. induction ks as [|k ks IH]; intros d1 d2 E; [exact E|].
  rewrite !run_cons. apply IH. apply after_latches_congr. exact E.
Qed.

(** ** Results and errors *)

Section Results.
Context {B : Type} `{i2c.Bus B}.
Implicit Types d : Dev B.

(** X10.  [ReadOutput] returns no error exactly for an index of 0..15,
    and with an error the boolean it returns is [false]. *)
Theorem ReadOutput_error_iff index d :
  (snd (fst (ReadOutput index d)) = None <-> 0 <= index < 16) /\
  (snd (fst (ReadOutput index d)) <> None ->
   fst (fst (ReadOutput index d)) = false).
Proof.
  destruct (index_range_dec index) as [Hi | Hout].
  - rewrite (ReadOutput_valid index d Hi). cbn [fst snd].
    split; [tauto | congruence].
  - rewrite (ReadOutput_invalid index d Hout). cbn [fst snd].
    split; [|reflexivity].
    split; [discriminate | lia].
Qed.

(** X11.  [ReadInput] returns no error exactly when its transaction
    succeeded and the index is of 0..15, and with an error the boolean it
    returns is [false]. *)
Theorem ReadInput_error_iff index d :
  (snd (fst (ReadInput index d)) = None <->
   snd (conn_Tx d [] [0; 0]) = None /\ 0 <= index < 16) /\
  (snd (fst (ReadInput index d)) <> None ->
   fst (fst (ReadInput index d)) = false).
Proof.
  rewrite ReadInput_eq. cbn [fst snd]. unfold input_result.
  destruct (snd (conn_Tx d [] [0; 0])) as [e|].
  - cbn [fst snd]. split; [|reflexivity].
    split; [discriminate | intros [E _]; discriminate E].
  - destruct (index_range_dec index) as [Hi | Hout].
    + destruct (in_range_cases index Hi) as [(E1 & _) | (E1 & E2 & _)].
      * rewrite E1. cbn [fst snd]. split; [tauto | congruence].
      * rewrite E1, E2. cbn [fst snd]. split; [tauto | congruence].
    + destruct (out_of_range_cases index Hout) as [-> ->]. cbn [fst snd].
      split; [|reflexivity].
      split; [discriminate | lia].
Qed.

(** X14.  For an index of 0..15, [ReadOutput] returns bit [index] of the
    16-bit word whose low byte is [lowPins] and whose high byte is
    [highPins]. *)
Theorem ReadOutput_word_bit index d :
  is_byte (lowPins d) -> 0 <= index < 16 ->
  ReadOutput index d
  = ((Z.testbit (word16 (lowPins d) (highPins d)) index, None), d).
Proof.
  intros Bl Hi. rewrite (ReadOutput_valid index d Hi).
  rewrite word16_testbit by (assumption || lia). reflexivity.
Qed.

(** X15.  For an index of 0..15, when the read transaction answers the
    bytes [s0] and [s1] without error, [ReadInput] returns bit [index] of
    the 16-bit word whose low byte is [s0] and whose high byte is
    [s1]. *)
Theorem ReadInput_word_bit index d s0 s1 :
  snd (fst (conn_Tx d [] [0; 0])) = [s0; s1] ->
  snd (conn_Tx d [] [0; 0]) = None ->
  is_byte s0 -> 0 <= index < 16 ->
  fst (ReadInput index d) = (Z.testbit (word16 s0 s1) index, None).
Proof.
  intros Hs Herr B0 Hi. rewrite ReadInput_eq. cbn [fst].
  rewrite Hs, Herr. unfold input_result. cbn [nth].
  rewrite word16_testbit by (assumption || lia).
  destruct (in_range_cases index Hi) as [(E1 & R & E2) | (E1 & E2 & R & E3)].
  - rewrite E1, E2, getBit_testbit by exact R. reflexivity.
  - rewrite E1, E2, E3, getBit_testbit by exact R. reflexivity.
Qed.

(** X16.  [ReadInput] never looks at the latches: two handles with the
    same connection return the same result and leave the same
    connection, whatever their latches are. *)
Theorem ReadInput_ignores_latches index d1 d2 :
  c d1 = c d2 ->
  fst (ReadInput index d1) = fst (ReadInput index d2) /\
  c (snd (ReadInput index d1)) = c (snd (ReadInput index d2)).
Proof.
  intros E. rewrite !ReadInput_eq. cbn [fst snd].
  unfold conn_Tx, with_bus. cbn [c]. rewrite E. split; reflexivity.
Qed.

End Results.

(** ** The further properties at concrete handles *)

(** X3 at pin 3 on a bus that does not acknowledge the first write. *)
Lemma WriteOutput_overrides_witness :
  let d := handle [([], Some no_ack)] 255 255 in
  0 <= 3 < 16 /\ is_byte (lowPins d) /\ is_byte (highPins d) /\
  latches (after (CallWriteOutput 3 true) (after (CallWriteOutput 3 false) d))
  = latches (after (CallWriteOutput 3 true) d).
Proof.
  intros d.
  assert (Hi : 0 <= 3 < 16) by (split; [discriminate | reflexivity]).
  assert (Bl : is_byte (lowPins d)) by (split; [discriminate | reflexivity]).
  assert (Bh : is_byte (highPins d)) by (split; [discriminate | reflexivity]).
  split; [exact Hi | split; [exact Bl | split; [exact Bh|]]].
  exact (WriteOutput_overrides 3 false true d Hi Bl Bh).
Defined.

(** X4 at pins 3 and 12. *)
Lemma WriteOutput_commute_witness :
  let d := handle [] 255 255 in
  0 <= 3 < 16 /\ 0 <= 12 < 16 /\ 3 <> 12 /\
  latches (after (CallWriteOutput 12 false) (after (CallWriteOutput 3 false) d))
  = latches (after (CallWriteOutput 3 false) (after (CallWriteOutput 12 false) d)).
Proof.
  intros d.
  assert (Hi : 0 <= 3 < 16) by (split; [discriminate | reflexivity]).
  assert (Hj : 0 <= 12 < 16) by (split; [discriminate | reflexivity]).
  assert (Hne : 3 <> 12) by discriminate.
  split; [exact Hi | split; [exact Hj | split; [exact Hne|]]].
  exact (WriteOutput_commute 3 12 false false d Hi Hj Hne).
Defined.

(** X5 on a bus that answers everything and a bus that fails once. *)
Lemma latches_bus_independent_witness :
  let d1 := handle [] 255 255 in
  let d2 := handle [([], Some no_ack)] 255 255 in
  let ks := [CallWriteOutput 3 false; CallReadInput 0;
             CallWriteOutput 20 true] in
  latches d1 = latches d2 /\ latches (run ks d1) = latches (run ks d2).
Proof.
  intros d1 d2 ks. split; [reflexivity|].
  exact (latches_bus_independent ks d1 d2 eq_refl).
Defined.

(** X6 after [New] and three calls. *)
Lemma handle_invariant_witness :
  let b' := mkRecord (B := Playback) [] [write_op 32 255 255 None] in
  let d := mkDev (i2c.mkDev b' 32) 255 255 in
  let ks := [CallWriteOutput 3 false; CallReadInput 0;
             CallWriteOutput 20 true] in
  New 32 (recording []) = ((Some d, None), b') /\
  is_byte (lowPins (run ks d)) /\ is_byte (highPins (run ks d)) /\
  i2c.Addr (c (run ks d)) = 32.
Proof.
  intros b' d ks. split; [reflexivity|].
  exact (handle_invariant (recording []) 32 d b' ks eq_refl).
Defined.

(** X7 after [New] and three calls. *)
Lemma wire_protocol_witness :
  let b' := mkRecord (B := Playback) [] [write_op 32 255 255 None] in
  let d := mkDev (i2c.mkDev b' 32) 255 255 in
  let ks := [CallWriteOutput 3 false; CallReadInput 0;
             CallWriteOutput 20 true] in
  New 32 (recording []) = ((Some d, None), b') /\
  exists ops,
    log (run ks d) = Ops (recording []) ++ ops /\
    forallb (driver_op 32) ops = true.
Proof.
  intros b' d ks. split; [reflexivity|].
  exact (wire_protocol (recording []) 32 d b' ks eq_refl).
Defined.

(** X9 at pin 3 after [New]: low, then high, then a read. *)
Lemma last_write_wins_witness :
  let b' := mkRecord (B := Playback) [] [write_op 32 255 255 None] in
  let d := mkDev (i2c.mkDev b' 32) 255 255 in
  let ks := [CallWriteOutput 3 false; CallWriteOutput 3 true;
             CallWriteOutput 3 false; CallReadInput 3] in
  New 32 (recording []) = ((Some d, None), b') /\ 0 <= 3 < 16 /\
  ReadOutput 3 (run ks d) = ((false, None), run ks d).
Proof.
  intros b' d ks.
  assert (Hi : 0 <= 3 < 16) by (split; [discriminate | reflexivity]).
  split; [reflexivity | split; [exact Hi|]].
  exact (last_write_wins (recording []) 32 d b' ks 3 eq_refl Hi).
Defined.

(** X12: a write that fails, then the same write with success. *)
Lemma WriteOutput_success_synchronizes_witness :
  let d := snd (WriteOutput 3 false (handle [([], Some no_ack)] 255 255)) in
  fst (WriteOutput 3 false d) = None /\
  0 <= 3 < 16 /\ I1 (snd (WriteOutput 3 false d)).
Proof.
  intros d. split; [reflexivity|].
  exact (WriteOutput_success_synchronizes 3 false d eq_refl).
Defined.

(** X13 at pin 3, already high. *)
Lemma WriteOutput_same_state_transmits_witness :
  let d := handle [] 255 255 in
  let d' := snd (WriteOutput 3 true d) in
  0 <= 3 < 16 /\ is_byte (lowPins d) /\ is_byte (highPins d) /\
  latch_bit d 3 = true /\
  latches_kept d d' /\
  log d' = log d ++ [write_op 32 255 255 (fst (WriteOutput 3 true d))].
Proof.
  intros d d'.
  assert (Hi : 0 <= 3 < 16) by (split; [discriminate | reflexivity]).
  assert (Bl : is_byte (lowPins d)) by (split; [discriminate | reflexivity]).
  assert (Bh : is_byte (highPins d)) by (split; [discriminate | reflexivity]).
  split; [exact Hi | split; [exact Bl | split; [exact Bh|]]].
  split; [reflexivity|].
  exact (WriteOutput_same_state_transmits 3 true d Hi Bl Bh eq_refl).
Defined.

(** X14 at pin 9 with latches [(0xFF, 0xFD)]. *)
Lemma ReadOutput_word_bit_witness :
  let d := handle [] 255 253 in
  is_byte (lowPins d) /\ 0 <= 9 < 16 /\
  ReadOutput 9 d = ((Z.testbit (word16 255 253) 9, None), d).
Proof.
  intros d.
  assert (Hi : 0 <= 9 < 16) by (split; [discriminate | reflexivity]).
  assert (Bl : is_byte (lowPins d)) by (split; [discriminate | reflexivity]).
  split; [exact Bl | split; [exact Hi|]].
  exact (ReadOutput_word_bit 9 d Bl Hi).
Defined.

(** X15 at pin 15 on a bus whose next answer is [[0x01; 0x80]]. *)
Lemma ReadInput_word_bit_witness :
  let d := handle [([1; 128], None)] 255 255 in
  snd (fst (conn_Tx d [] [0; 0])) = [1; 128] /\
  snd (conn_Tx d [] [0; 0]) = None /\
  is_byte 1 /\ 0 <= 15 < 16 /\
  fst (ReadInput 15 d) = (Z.testbit (word16 1 128) 15, None).
Proof.
  intros d.
  assert (Hi : 0 <= 15 < 16) by (split; [discriminate | reflexivity]).
  assert (B0 : is_byte 1) by (split; [discriminate | reflexivity]).
  split; [reflexivity | split; [reflexivity | split; [exact B0|]]].
  split; [exact Hi|].
  exact (ReadInput_word_bit 15 d 1 128 eq_refl eq_refl B0 Hi).
Defined.

(** X16 on two handles of one connection, latches all high and all low. *)
Lemma ReadInput_ignores_latches_witness :
  let d1 := handle [([1; 128], None)] 255 255 in
  let d2 := handle [([1; 128], None)] 0 0 in
  c d1 = c d2 /\
  fst (ReadInput 0 d1) = fst (ReadInput 0 d2) /\
  c (snd (ReadInput 0 d1)) = c (snd (ReadInput 0 d2)).
Proof.
  intros d1 d2. split; [reflexivity|].
  exact (ReadInput_ignores_latches 0 d1 d2 eq_refl).
Defined.
